(** * Bot Médico: the bounded per-user conversation history of [index.js]

    A shallow embedding of [src/index.js]: the [chatHistory] map, the reply
    function [gerarRespostaGemini], the [message_create] handler and the
    status page served at [/], followed by the properties of the transcript
    (seeding, growth, eviction of the oldest pair, behaviour on a failed
    model call) stated in the specification. *)

From stdpp Require Import gmap strings pretty list fin_maps.

Local Open Scope string_scope.
Local Open Scope list_scope.
Local Open Scope nat_scope.

(** ** JavaScript values used by the program *)

(** The double-quote character cannot be written inside a string literal
    here, so the literals of the source that contain it are assembled with
    [dq]. *)
Definition dq : string := String (Ascii.ascii_of_nat 34) EmptyString.

(** [{ text: ... }] *)
Record Part := { text : string }.

(** [{ role: ..., parts: [...] }], an entry of a transcript. *)
Record Content := { role : string; parts : list Part }.

(** A thrown value; the program only ever reads [error.message]. *)
Record Error := { message : string }.

(** [Array.prototype.splice(start, deleteCount)] with no inserted items and
    non-negative arguments: the elements [start .. start + deleteCount - 1]
    that exist are removed, the others keep their order. *)
Definition splice {A : Type} (start deleteCount : nat) (l : list A) : list A :=
  take start l ++ drop (start + deleteCount) l.

(** ** The world the program runs in *)

(** An argument of [console.log] / [console.error]. *)
Inductive LogArg :=
| Str (s : string)
| Err (e : Error).

(** What the program does to its collaborators, in order. *)
Inductive Effect :=
| ConsoleLog (args : list LogArg)
| ConsoleError (args : list LogArg)
| SendMessage (history : list Content) (input : string)
| GetChat (chatId : string)
| SendStateTyping (chatId : string)
| Reply (chatId : string) (body : string)
| ClearState (chatId : string)
| Initialize.

(** The module-level mutable state: [chatHistory] (a [Map] from user id to
    the array holding that user's transcript), [latestQrCode] ([null] or a
    string), and the effects performed so far. The references to an array
    stored in [chatHistory] (the variable [historico], and the history of
    the chat session started on it) are modelled by updating the map entry
    they point to. *)
Record World := {
  chatHistory : gmap string (list Content);
  latestQrCode : option string;
  effects : list Effect
}.

Definition set_chatHistory (f : gmap string (list Content) → gmap string (list Content))
    (w : World) : World :=
  {| chatHistory := f (chatHistory w);
     latestQrCode := latestQrCode w;
     effects := effects w |}.

Definition set_latestQrCode (q : option string) (w : World) : World :=
  {| chatHistory := chatHistory w; latestQrCode := q; effects := effects w |}.

Definition emit (e : Effect) (w : World) : World :=
  {| chatHistory := chatHistory w;
     latestQrCode := latestQrCode w;
     effects := effects w ++ [e] |}.

(** [const chatHistory = new Map(); let latestQrCode = null;] *)
Definition initial_world : World :=
  {| chatHistory := ∅; latestQrCode := None; effects := [] |}.

(** ** Computations: state plus exceptions *)

Inductive completion (A : Type) :=
| Normal (a : A)
| Throw (e : Error).
Arguments Normal {A} a.
Arguments Throw {A} e.

Definition JS (A : Type) : Type := World → completion A * World.

Definition ret {A} (a : A) : JS A := λ w, (Normal a, w).

Definition bind {A B} (c : JS A) (k : A → JS B) : JS B :=
  λ w, match c w with
       | (Normal a, w') => k a w'
       | (Throw e, w') => (Throw e, w')
       end.

Definition throw {A} (e : Error) : JS A := λ w, (Throw e, w).

(** [try { body } catch (error) { handler }] *)
Definition try_catch {A} (body : JS A) (handler : Error → JS A) : JS A :=
  λ w, match body w with
       | (Normal a, w') => (Normal a, w')
       | (Throw e, w') => handler e w'
       end.

Definition perform (e : Effect) : JS unit := λ w, (Normal tt, emit e w).

(** [await p] for a promise whose outcome is known: a rejection is thrown. *)
Definition await {A} (p : Error + A) : JS A :=
  match p with
  | inr a => ret a
  | inl e => throw e
  end.

Notation "'let!' x ':=' c 'in' k" := (bind c (λ x, k))
  (at level 10, x name, c at level 100, k at level 200).
Notation "c ';;;' k" := (bind c (λ _, k))
  (at level 100, k at level 200, right associativity).
Notation "'try!' b 'catch!' h" := (try_catch b h)
  (at level 10, b at level 200, h at level 200).

(** *** Operations on [chatHistory] and on the arrays it holds *)

(** [chatHistory.has(userId)] *)
Definition Map_has (userId : string) : JS bool :=
  λ w, (Normal (bool_decide (is_Some (chatHistory w !! userId))), w).

(** [chatHistory.set(userId, value)] *)
Definition Map_set (userId : string) (value : list Content) : JS unit :=
  λ w, (Normal tt, set_chatHistory (insert userId value) w).

(** [chatHistory.get(userId)]: [None] stands for [undefined]. *)
Definition Map_get (userId : string) : JS (option (list Content)) :=
  λ w, (Normal (chatHistory w !! userId), w).

Definition TypeError : Error :=
  {| message := "Cannot read properties of undefined" |}.

(** An operation on the array referenced by [historico], the value that
    [chatHistory.get(userId)] returned; on [undefined] it throws. *)
Definition with_array {A} (userId : string)
    (f : list Content → A * list Content) : JS A :=
  λ w, match chatHistory w !! userId with
       | Some h => let '(a, h') := f h in
                   (Normal a, set_chatHistory (insert userId h') w)
       | None => (Throw TypeError, w)
       end.

(** [historico.push(entry)] *)
Definition Array_push (userId : string) (entry : Content) : JS unit :=
  with_array userId (λ h, (tt, h ++ [entry])).

(** [historico.length] *)
Definition Array_length (userId : string) : JS nat :=
  with_array userId (λ h, (length h, h)).

(** [historico.splice(start, deleteCount)] *)
Definition Array_splice (userId : string) (start deleteCount : nat) : JS unit :=
  with_array userId (λ h, (tt, splice start deleteCount h)).

(** ** The prompt and the model *)

(** [const PROMPT_MEDICINA = `...`] *)
Definition PROMPT_MEDICINA : string :=
  "
Você é um preceptor médico de altíssimo nível, especialista em Urgência, Emergência, Cirurgia e Terapia Intensiva.
O usuário é um estudante ou médico buscando informações rápidas.

OBJETIVO: Fornecer respostas precisas, diretas e otimizadas estritamente para leitura no WHATSAPP.

🚨 REGRAS RÍGIDAS DE FORMATAÇÃO (LIMITAÇÕES DO WHATSAPP) 🚨
1. PROIBIDO TABELAS E HTML: O WhatsApp NÃO suporta tabelas Markdown (| coluna |), cabeçalhos com hashtag (###), nem tags HTML como <br>. NUNCA os utilize.
2. NEGRITO: Para destacar palavras, use apenas UM asterisco de cada lado. Exemplo: *Cardiomiopatia*. NUNCA use dois asteriscos (" +:+ "**).
3. ITÁLICO: Use underline. Exemplo: _texto_.
4. ESTRUTURAÇÃO SEM TABELAS: Se precisar comparar doenças (ex: tipos de cardiomiopatias), crie um bloco de texto para cada uma usando listas e emojis, NUNCA desenhe uma tabela.
5. TÍTULOS: Como não há tags de cabeçalho, faça títulos usando letras maiúsculas, emojis e negrito. Exemplo: 🫀 *CLASSIFICAÇÃO DAS CARDIOMIOPATIAS PRIMÁRIAS*
6. QUEBRAS DE LINHA: Use a quebra de linha normal (pular linha), nunca escreva <br>.

DIRETRIZES DE CONTEÚDO MÉDICO:
1. VÁ DIRETO AO PONTO: Zero enrolação. Sem " +:+ dq +:+ "Olá" +:+ dq +:+ ", sem introduções.
2. SCANNEABILIDADE: O usuário está num plantão ou fazendo prova. Use tópicos curtos (com o símbolo • ou -). 
3. CONDUTAS E ALGORITMOS: Use fluxogramas em texto claro. Exemplo: *Passo 1* ➔ *Passo 2* ➔ *Passo 3*.
4. QUESTÕES DE PROVA: Dê o GABARITO imediatamente na primeira linha. Em seguida, justifique rapidamente porque a certa é a certa, e o erro das outras.
5. MNEMÔNICOS: Sempre que existir um mnemônico clássico, destaque-o no final com o emoji 🧠.
".

(** What the hosted model returned for one request, as far as the program
    and the chat session look at it: the parts of the first candidate, and
    whether the SDK accepted the response as a turn of the conversation. *)
Record Response := {
  response_parts : list Part;
  recorded : bool
}.

(** [result.response.text()]: the texts of the parts, joined. *)
Definition response_text (response : Response) : string :=
  foldr (λ part rest, text part +:+ rest) EmptyString (response_parts response).

(** The hosted model as the program sees it, i.e. the object returned by
    [genAI.getGenerativeModel({ model: MODEL_NAME })]. The SDK
    ([@google/generative-ai]) is not part of the repository; this is its
    behaviour as the program observes it. [sendMessage history input] is the
    outcome of the request that [model.startChat({ history }).sendMessage(input)]
    sends, followed by [result.response.text()]: [inr] the response when
    both succeed, [inl] the thrown value when either throws or rejects; a
    failed call leaves the history as it is. Building the model object and
    the chat session sends no request and is taken not to throw. *)
Record GenerativeModel := {
  sendMessage : list Content → string → Error + Response
}.

(** [await chat.sendMessage(textoUsuario)] then [result.response.text()], for
    the chat started at line 70 with [{ history: historico }], where
    [historico] is the array stored for [userId] (or [undefined]). The chat
    session keeps that very array as its history, no copy is made: when the
    SDK accepts the response, it pushes the request ([role: "user"], the
    text as its single part) and the content of the response
    ([role: "model"], the parts received) onto it before the promise
    resolves. *)
Definition chat_sendMessage (model : GenerativeModel) (userId : string)
    (historico : option (list Content)) (textoUsuario : string) : JS string :=
  perform (SendMessage (default [] historico) textoUsuario);;;
  let! response := await (sendMessage model (default [] historico) textoUsuario) in
  (if recorded response && bool_decide (is_Some historico) then
     Array_push userId {| role := "user"; parts := [ {| text := textoUsuario |} ] |};;;
     Array_push userId {| role := "model"; parts := response_parts response |}
   else ret tt);;;
  ret (response_text response).

(** The array a transcript is created with (lines 63-66). *)
Definition seed : list Content :=
  [ {| role := "user";
       parts := [ {| text := "Instruções do Sistema: " +:+ PROMPT_MEDICINA |} ] |};
    {| role := "model";
       parts := [ {| text := "Compreendido. Aguardando a primeira dúvida médica ou questão." |} ] |} ].

(** The text returned from the [catch] block (line 86). *)
Definition fallback : string :=
  "⚠️ Erro ao processar com a IA. Tente novamente em alguns instantes.".

(** ** [gerarRespostaGemini] *)

Definition gerarRespostaGemini (model : GenerativeModel)
    (userId textoUsuario : string) : JS string :=
  let! known := Map_has userId in
  (if negb known then Map_set userId seed else ret tt);;;
  let! historico := Map_get userId in
  try! (
    let! respostaText := chat_sendMessage model userId historico textoUsuario in
    Array_push userId {| role := "user"; parts := [ {| text := textoUsuario |} ] |};;;
    Array_push userId {| role := "model"; parts := [ {| text := respostaText |} ] |};;;
    let! len := Array_length userId in
    (if (30 <? len)%nat then Array_splice userId 2 2 else ret tt);;;
    ret respostaText)
  catch! (λ error,
    perform (ConsoleError [Str ("⚠️ Erro Gemini: " +:+ message error)]);;;
    ret fallback).

(** ** The WhatsApp client *)

(** The chat object that [msg.getChat()] resolves to, with the outcome of
    each of its two methods the program calls. *)
Record Chat := {
  sendStateTyping : Error + unit;
  clearState : Error + unit
}.

(** An inbound message event, with the outcome of each method the program
    calls on it. *)
Record Message := {
  fromMe : bool;
  isStatus : bool;
  from : string;
  body : string;
  getChat : Error + Chat;
  reply : string → Error + unit
}.

(** [client.on('qr', ...)]: [toDataURL] is what [qrcode.toDataURL] passes to
    its callback, [inl err] or [inr url]. *)
Definition on_qr (toDataURL : Error + string) : JS unit :=
  perform (ConsoleLog [Str "QR RECEIVED - Escaneie via Web"]);;;
  match toDataURL with
  | inr url => λ w, (Normal tt, set_latestQrCode (Some url) w)
  | inl _ => ret tt
  end.

(** [client.on('ready', ...)] *)
Definition on_ready : JS unit :=
  perform (ConsoleLog [Str "✅ Bot Médico Online e aberto ao público!"]);;;
  λ w, (Normal tt, set_latestQrCode (Some "CONNECTED") w).

(** [client.on('disconnected', ...)] *)
Definition on_disconnected (reason : string) : JS unit :=
  perform (ConsoleLog [Str "❌ Cliente desconectado! Tentando reconectar..."; Str reason]);;;
  (λ w, (Normal tt, set_latestQrCode None w));;;
  perform Initialize.

(** [client.on('message_create', ...)] *)
Definition on_message_create (model : GenerativeModel) (msg : Message) : JS unit :=
  if fromMe msg || isStatus msg then ret tt else
  perform (ConsoleLog [Str ("💬 Dúvida recebida de " +:+ from msg +:+ "! Processando...")]);;;
  try! (
    let! chat := (perform (GetChat (from msg));;; await (getChat msg)) in
    perform (SendStateTyping (from msg));;; await (sendStateTyping chat);;;
    let! resposta := gerarRespostaGemini model (from msg) (body msg) in
    perform (Reply (from msg) resposta);;; await (reply msg resposta);;;
    perform (ClearState (from msg));;; await (clearState chat);;;
    ret tt)
  catch! (λ e, perform (ConsoleError [Str "Erro ao responder:"; Err e])).

(** ** The status page *)

Definition metaRefresh : string :=
  "<meta http-equiv=" +:+ dq +:+ "refresh" +:+ dq +:+ " content=" +:+ dq +:+ "3" +:+ dq +:+ ">".

Definition style : string :=
  "<style>body{font-family:sans-serif;text-align:center;padding-top:50px;background-color:#f0f4f8;}</style>".

(** The three bodies passed to [res.send]. *)
Definition page_connected : string :=
  "
            <html><head>" +:+ style +:+ "</head>
            <body>
                <h1 style=" +:+ dq +:+ "color: #2c3e50;" +:+ dq +:+ ">⚕️ Bot Médico Online!</h1>
                <p>O sistema está conectado ao seu WhatsApp.</p>
            </body></html>
        ".

Definition page_qr (url : string) : string :=
  "
            <html><head>" +:+ metaRefresh +:+ style +:+ "</head>
            <body>
                <h1 style=" +:+ dq +:+ "color: #2c3e50;" +:+ dq +:+ ">Conecte o Bot Médico</h1>
                <p>Escaneie o QR Code abaixo:</p>
                <img src=" +:+ dq +:+ url +:+ dq +:+ " width=" +:+ dq +:+ "300" +:+ dq +:+ " style=" +:+ dq +:+ "border-radius: 10px; box-shadow: 0 4px 8px rgba(0,0,0,0.1);" +:+ dq +:+ "/>
            </body></html>
        ".

Definition page_waiting : string :=
  "
            <html><head>" +:+ metaRefresh +:+ style +:+ "</head>
            <body>
                <h1>Aguardando QR Code...</h1>
            </body></html>
        ".

(** [app.get('/', ...)]: the body sent for a value of [latestQrCode]. A
    string is truthy exactly when it is not empty. *)
Definition status_page (latestQrCode : option string) : string :=
  match latestQrCode with
  | Some url =>
      if String.eqb url "CONNECTED" then page_connected
      else if negb (String.eqb url EmptyString) then page_qr url
      else page_waiting
  | None => page_waiting
  end.

Definition app_get_root (w : World) : string := status_page (latestQrCode w).

(** ** What a call does to a transcript *)

(** The transcript [gerarRespostaGemini] works on: the one stored for the
    user, or the seed it stores on first contact. *)
Definition transcript_of (w : World) (userId : string) : list Content :=
  default seed (chatHistory w !! userId).

(** The two entries pushed after a successful model call (lines 76-77). *)
Definition turn (textoUsuario respostaText : string) : list Content :=
  [ {| role := "user"; parts := [ {| text := textoUsuario |} ] |};
    {| role := "model"; parts := [ {| text := respostaText |} ] |} ].

(** The two entries the chat session pushes onto its history when it accepts
    the response. *)
Definition sdk_entries (textoUsuario : string) (response : Response) : list Content :=
  if recorded response then
    [ {| role := "user"; parts := [ {| text := textoUsuario |} ] |};
      {| role := "model"; parts := response_parts response |} ]
  else [].

(** The array when line 79 is reached: what the chat session pushed, then
    what lines 76-77 pushed. *)
Definition pushed (h : list Content) (textoUsuario : string) (response : Response)
    : list Content :=
  h ++ sdk_entries textoUsuario response ++ turn textoUsuario (response_text response).

(** Lines 73-81 as a function of the array: the pushes, then the eviction. *)
Definition commit (h : list Content) (textoUsuario : string) (response : Response)
    : list Content :=
  let h' := pushed h textoUsuario response in
  if (30 <? length h')%nat then splice 2 2 h' else h'.

(** Lines 62-69 on their own: the lazy creation and the lookup. *)
Definition getOrCreate (userId : string) : JS (option (list Content)) :=
  let! known := Map_has userId in
  (if negb known then Map_set userId seed else ret tt);;;
  Map_get userId.

(** *** Events of the program *)

Inductive Event :=
| Qr (toDataURL : Error + string)
| Ready
| Disconnected (reason : string)
| MessageCreate (model : GenerativeModel) (msg : Message).

Definition handler (ev : Event) : JS unit :=
  match ev with
  | Qr r => on_qr r
  | Ready => on_ready
  | Disconnected reason => on_disconnected reason
  | MessageCreate model msg => on_message_create model msg
  end.

Definition handle_event (w : World) (ev : Event) : World := snd (handler ev w).

(** The world after the events [evs], delivered in order, each handler
    running to completion before the next event is delivered. *)
Definition run (evs : list Event) (w : World) : World := foldl handle_event w evs.

(** *** Predicates used in the statements *)

(** From index 2 on, the entries at even indices have role [user] and those
    at odd indices have role [model]. *)
Definition alternates (h : list Content) : Prop :=
  ∀ i c, 2 ≤ i → h !! i = Some c →
         role c = if Nat.even i then "user" else "model".

(** Every [user] entry after the preamble is followed by an entry. *)
Definition paired (h : list Content) : Prop :=
  2 ≤ length h ∧ Nat.even (length h) = true.

(** [s] begins with [p]. *)
Fixpoint starts_with (p s : string) : bool :=
  match p, s with
  | EmptyString, _ => true
  | String a p', String b s' => Ascii.eqb a b && starts_with p' s'
  | String _ _, EmptyString => false
  end.

(** [p] occurs somewhere in [s]. *)
Fixpoint includes (p s : string) : bool :=
  starts_with p s ||
  match s with
  | EmptyString => false
  | String _ s' => includes p s'
  end.

(** The [img] element of the page shown while a code is pending. *)
Definition img_of (url : string) : string := "<img src=" +:+ dq +:+ url +:+ dq.

(** ** Fixtures for the examples *)

(** A response with one text part that the SDK accepts. *)
Definition answer (respostaText : string) : Response :=
  {| response_parts := [ {| text := respostaText |} ]; recorded := true |}.

(** A model that always answers, and one that always fails. *)
Definition echo_model : GenerativeModel :=
  {| sendMessage := λ _ input, inr (answer ("re: " +:+ input)) |}.

(** The model of the first scenario of the specification: it answers
    [hi]. *)
Definition hi_model : GenerativeModel :=
  {| sendMessage := λ _ _, inr (answer "hi") |}.

Definition failing_model : GenerativeModel :=
  {| sendMessage := λ _ _, inl {| message := "quota exceeded" |} |}.

Definition ok_chat : Chat := {| sendStateTyping := inr tt; clearState := inr tt |}.

(** A message from another account on which every client call succeeds. *)
Definition message_from (userId texto : string) : Message :=
  {| fromMe := false; isStatus := false; from := userId; body := texto;
     getChat := inr ok_chat; reply := λ _, inr tt |}.

(** A world in which the user already has a transcript [h]. *)
Definition world_with (userId : string) (h : list Content) : World :=
  {| chatHistory := {[ userId := h ]}; latestQrCode := Some "CONNECTED"; effects := [] |}.

(** A transcript of 29 entries, as in the second scenario of the
    specification: the seed followed by 27 numbered entries. *)
Definition numbered (n : nat) : Content :=
  {| role := "user"; parts := [ {| text := pretty n |} ] |}.

Definition transcript29 : list Content := seed ++ (numbered <$> seq 2 27).

(** A transcript of 27 entries: with the four entries of an answered call it
    reaches 31. *)
Definition transcript27 : list Content := seed ++ (numbered <$> seq 2 25).

(** [n] messages from the user ["A"], each answered and delivered. *)
Definition answered_messages (n : nat) : list Event :=
  replicate n (MessageCreate echo_model (message_from "A" "hello")).

(** *** Descriptions used for the handlers *)

(** The line logged when a message is accepted (line 124). *)
Definition log_received (msg : Message) : Effect :=
  ConsoleLog [Str ("💬 Dúvida recebida de " +:+ from msg +:+ "! Processando...")].

(** The line logged by the [catch] block of the handler (line 135). *)
Definition log_reply_error (e : Error) : Effect :=
  ConsoleError [Str "Erro ao responder:"; Err e].

(** The line logged by the [catch] block of [gerarRespostaGemini] (line 85). *)
Definition log_gemini_error (e : Error) : Effect :=
  ConsoleError [Str ("⚠️ Erro Gemini: " +:+ message e)].

(** The entries of a list of exchanges (the user's text, the parts of the
    model's entry), in order. *)
Definition exchanges (l : list (string * list Part)) : list Content :=
  concat ((λ x, [ {| role := "user"; parts := [ {| text := x.1 |} ] |};
                  {| role := "model"; parts := x.2 |} ]) <$> l).

(** The length of a transcript of [len] entries after one more message that
    the model answers and the SDK accepts. *)
Definition grow (len : nat) : nat := if 30 <? len + 4 then len + 2 else len + 4.

(** What the events do to [latestQrCode], read off the three handlers that
    assign it. *)
Definition next_code (q : option string) (ev : Event) : option string :=
  match ev with
  | Qr (inr url) => Some url
  | Qr (inl _) => q
  | Ready => Some "CONNECTED"
  | Disconnected _ => None
  | MessageCreate _ _ => q
  end.

(** The user [userId] sends the texts one after the other, each call
    returning before the next. *)
Definition converse (model : GenerativeModel) (userId : string)
    (textos : list string) (w : World) : World :=
  foldl (λ w texto, snd (gerarRespostaGemini model userId texto w)) w textos.

(** * Properties *)

(** ** Lists *)

Lemma splice_length {A} (l : list A) :
  4 ≤ length l → length (splice 2 2 l) = length l - 2.
Proof.
  intros Hl. unfold splice.
  rewrite length_app, length_take, length_drop. lia.
Qed.

Lemma splice_lookup_lt {A} (l : list A) (i : nat) :
  i < 2 → 2 ≤ length l → splice 2 2 l !! i = l !! i.
Proof.
  intros Hi Hl. unfold splice.
  rewrite lookup_app_l by (rewrite length_take; lia).
  apply lookup_take_lt. lia.
Qed.

Lemma splice_lookup_ge {A} (l : list A) (i : nat) :
  2 ≤ i → 2 ≤ length l → splice 2 2 l !! i = l !! (i + 2).
Proof.
  intros Hi Hl. unfold splice.
  rewrite lookup_app_r by (rewrite length_take; lia).
  rewrite length_take, lookup_drop. f_equal. lia.
Qed.

Lemma splice_take2 {A} (l : list A) : take 2 (splice 2 2 l) = take 2 l.
Proof. by destruct l as [|a [|b l]]. Qed.

Lemma pushed_length h t response :
  length (pushed h t response) = length h + (if recorded response then 4 else 2).
Proof.
  unfold pushed, sdk_entries. rewrite !length_app.
  destruct (recorded response); simpl; lia.
Qed.

Lemma commit_length_grow h t response :
  length (pushed h t response) ≤ 30 → commit h t response = pushed h t response.
Proof.
  intros Hl. unfold commit. cbv zeta.
  destruct (Nat.ltb_spec 30 (length (pushed h t response))); [lia|done].
Qed.

Lemma commit_length_evict h t response :
  30 < length (pushed h t response) →
  commit h t response = splice 2 2 (pushed h t response).
Proof.
  intros Hl. unfold commit. cbv zeta.
  destruct (Nat.ltb_spec 30 (length (pushed h t response))); [done|lia].
Qed.

Lemma commit_take2 h t response :
  2 ≤ length h → take 2 (commit h t response) = take 2 h.
Proof.
  intros Hl. unfold commit, pushed. cbv zeta.
  destruct (30 <? _)%nat; rewrite ?splice_take2; by rewrite take_app_le.
Qed.

(** ** The effect of [gerarRespostaGemini] in closed form *)

Lemma set_chatHistory_twice f g w :
  set_chatHistory f (set_chatHistory g w) = set_chatHistory (f ∘ g) w.
Proof. done. Qed.

(** After lines 62-69 the user's entry holds [transcript_of w userId]. *)
Lemma getOrCreate_spec userId w :
  getOrCreate userId w =
    (Normal (Some (transcript_of w userId)),
     set_chatHistory (insert userId (transcript_of w userId)) w).
Proof.
  unfold getOrCreate, bind, Map_has, Map_set, Map_get, transcript_of.
  destruct w as [m q es]; unfold set_chatHistory; simpl.
  destruct (m !! userId) as [h|] eqn:Hh; simpl.
  - by rewrite Hh, insert_id.
  - by rewrite lookup_insert_eq.
Qed.

(** The model answered: the chat session and then lines 76-77 push their
    entries, the eviction test runs, and the text of the answer is
    returned. *)
Lemma gerarRespostaGemini_success model userId textoUsuario w response :
  sendMessage model (transcript_of w userId) textoUsuario = inr response →
  gerarRespostaGemini model userId textoUsuario w =
    (Normal (response_text response),
     emit (SendMessage (transcript_of w userId) textoUsuario)
       (set_chatHistory
          (insert userId (commit (transcript_of w userId) textoUsuario response)) w)).
Proof.
  intros Hok.
  unfold gerarRespostaGemini, bind, try_catch, chat_sendMessage, bind, perform,
    Map_has, Map_set, Map_get, Array_push, Array_length, Array_splice,
    with_array, commit, pushed, sdk_entries, await, ret in *.
  destruct w as [m q es]; unfold emit, set_chatHistory, transcript_of in *;
    simpl in *.
  destruct (m !! userId) as [h|] eqn:Hh; simpl in *.
  - repeat (rewrite ?Hh, ?Hok, ?lookup_insert_eq, ?insert_insert_eq; simpl).
    destruct (recorded response); simpl;
      repeat (rewrite ?Hh, ?lookup_insert_eq, ?insert_insert_eq; simpl);
      rewrite <- ?app_assoc; simpl;
      (destruct (30 <? length (h ++ _)); simpl;
       by repeat (rewrite ?Hh, ?lookup_insert_eq, ?insert_insert_eq; simpl)).
  - repeat (rewrite ?Hok, ?lookup_insert_eq, ?insert_insert_eq; simpl).
    destruct (recorded response); simpl;
      by repeat (rewrite ?lookup_insert_eq, ?insert_insert_eq; simpl).
Qed.

(** The model call failed: nothing is pushed, the error is logged, and the
    fallback text is returned. *)
Lemma gerarRespostaGemini_failure model userId textoUsuario w error :
  sendMessage model (transcript_of w userId) textoUsuario = inl error →
  gerarRespostaGemini model userId textoUsuario w =
    (Normal fallback,
     emit (ConsoleError [Str ("⚠️ Erro Gemini: " +:+ message error)])
       (emit (SendMessage (transcript_of w userId) textoUsuario)
          (set_chatHistory (insert userId (transcript_of w userId)) w))).
Proof.
  intros Hko.
  unfold gerarRespostaGemini, bind, try_catch, chat_sendMessage, bind, perform,
    Map_has, Map_set, Map_get, transcript_of in *.
  destruct w as [m q es]; unfold emit, set_chatHistory; simpl in *.
  destruct (m !! userId) as [h|] eqn:Hh; simpl in *.
  - rewrite Hh. simpl. rewrite Hko. simpl. by rewrite insert_id.
  - rewrite lookup_insert_eq. simpl. by rewrite Hko.
Qed.

(** [gerarRespostaGemini] always returns, and leaves in the store either the
    transcript it found or that transcript after [commit]. *)
Lemma gerarRespostaGemini_total model userId textoUsuario w :
  ∃ resposta w',
    gerarRespostaGemini model userId textoUsuario w = (Normal resposta, w') ∧
    latestQrCode w' = latestQrCode w ∧
    ((∃ error,
        sendMessage model (transcript_of w userId) textoUsuario = inl error ∧
        resposta = fallback ∧
        chatHistory w' = <[userId := transcript_of w userId]> (chatHistory w)) ∨
     (∃ response,
        sendMessage model (transcript_of w userId) textoUsuario = inr response ∧
        resposta = response_text response ∧
        chatHistory w' =
          <[userId := commit (transcript_of w userId) textoUsuario response]>
            (chatHistory w))).
Proof.
  destruct (sendMessage model (transcript_of w userId) textoUsuario)
    as [error|response] eqn:Hcall.
  - eexists _, _. split; [by apply gerarRespostaGemini_failure|].
    split; [done|]. left. by exists error.
  - eexists _, _. split; [by apply gerarRespostaGemini_success|].
    split; [done|]. right. by exists response.
Qed.

(** The handler either leaves the store alone or leaves what its call of
    [gerarRespostaGemini] left. *)
Lemma on_message_create_store model msg w :
  chatHistory (snd (on_message_create model msg w)) = chatHistory w ∨
  ∃ w0, chatHistory w0 = chatHistory w ∧
        chatHistory (snd (on_message_create model msg w)) =
          chatHistory (snd (gerarRespostaGemini model (from msg) (body msg) w0)).
Proof.
  unfold on_message_create.
  destruct (fromMe msg || isStatus msg); [by left|].
  unfold bind at 1. simpl. unfold try_catch, bind, perform, await.
  destruct (getChat msg) as [e|chat]; simpl; [by left|].
  destruct (sendStateTyping chat) as [e|[]]; simpl; [by left|].
  right.
  match goal with |- context [gerarRespostaGemini _ _ _ ?w1] => exists w1 end.
  split; [done|].
  destruct (gerarRespostaGemini _ _ _ _) as [[resposta|e] w']; simpl; [|done].
  destruct (reply msg resposta) as [e|[]]; simpl; [done|].
  by destruct (clearState chat) as [e|[]].
Qed.

Lemma transcript_of_ext w0 w userId :
  chatHistory w0 = chatHistory w → transcript_of w0 userId = transcript_of w userId.
Proof. unfold transcript_of. by intros ->. Qed.

(** ** Properties of every stored transcript *)

Section transcript_invariant.
Variable P : list Content → Prop.
Hypothesis P_seed : P seed.
Hypothesis P_commit : ∀ h t r, P h → P (commit h t r).

Lemma invariant_gerarRespostaGemini model userId textoUsuario w :
  map_Forall (λ _, P) (chatHistory w) →
  map_Forall (λ _, P)
    (chatHistory (snd (gerarRespostaGemini model userId textoUsuario w))).
Proof using P_seed P_commit.
  intros Hw.
  assert (P (transcript_of w userId)) as Ht.
  { unfold transcript_of. destruct (chatHistory w !! userId) eqn:Hh; simpl; [|done].
    by eapply Hw. }
  destruct (gerarRespostaGemini_total model userId textoUsuario w)
    as (resposta & w' & Hrun & _ & [(error & _ & _ & Hm)|(response & _ & _ & Hm)]);
    rewrite Hrun; simpl; rewrite Hm; apply map_Forall_insert_2; auto.
Qed.

Lemma invariant_on_message_create model msg w :
  map_Forall (λ _, P) (chatHistory w) →
  map_Forall (λ _, P) (chatHistory (snd (on_message_create model msg w))).
Proof using P_seed P_commit.
  intros Hw.
  destruct (on_message_create_store model msg w) as [->|(w0 & Hw0 & ->)];
    [done|].
  apply invariant_gerarRespostaGemini. by rewrite Hw0.
Qed.

Lemma invariant_handle_event w ev :
  map_Forall (λ _, P) (chatHistory w) →
  map_Forall (λ _, P) (chatHistory (handle_event w ev)).
Proof using P_seed P_commit.
  intros Hw. destruct ev as [[e|url]| |reason|model msg]; try done.
  by apply invariant_on_message_create.
Qed.

Lemma invariant_run evs w :
  map_Forall (λ _, P) (chatHistory w) →
  map_Forall (λ _, P) (chatHistory (run evs w)).
Proof using P_seed P_commit.
  revert w. induction evs as [|ev evs IH]; intros w Hw; [done|].
  simpl. apply IH. by apply invariant_handle_event.
Qed.

Lemma invariant_reachable evs userId h :
  chatHistory (run evs initial_world) !! userId = Some h → P h.
Proof using P_seed P_commit.
  intros Hh. eapply (invariant_run evs initial_world); [|done].
  apply map_Forall_empty.
Qed.
End transcript_invariant.

Lemma bind_assoc {A B C} (c : JS A) (f : A → JS B) (g : B → JS C) w :
  bind (bind c f) g w = bind c (λ a, bind (f a) g) w.
Proof. unfold bind. by destruct (c w) as [[a|e] w']. Qed.

Lemma bind_ext {A B} (c : JS A) (f g : A → JS B) w :
  (∀ a w', f a w' = g a w') → bind c f w = bind c g w.
Proof. intros Hfg. unfold bind. by destruct (c w) as [[a|e] w']. Qed.

(** [gerarRespostaGemini] is [getOrCreate] followed by the [try] block. *)
Lemma gerarRespostaGemini_getOrCreate model userId textoUsuario w :
  gerarRespostaGemini model userId textoUsuario w =
    (let! historico := getOrCreate userId in
     try! (
       let! respostaText := chat_sendMessage model userId historico textoUsuario in
       Array_push userId {| role := "user"; parts := [ {| text := textoUsuario |} ] |};;;
       Array_push userId {| role := "model"; parts := [ {| text := respostaText |} ] |};;;
       let! len := Array_length userId in
       (if 30 <? len then Array_splice userId 2 2 else ret tt);;;
       ret respostaText)
     catch! (λ error,
       perform (ConsoleError [Str ("⚠️ Erro Gemini: " +:+ message error)]);;;
       ret fallback)) w.
Proof.
  unfold gerarRespostaGemini, getOrCreate. rewrite bind_assoc.
  apply bind_ext. intros known w'. by rewrite bind_assoc.
Qed.

(** ** The claims *)

Lemma commit_preamble h t response :
  take 2 h = seed → take 2 (commit h t response) = seed.
Proof.
  intros Hpre.
  assert (length (take 2 h) = 2) as Ht by (by rewrite Hpre).
  rewrite length_take in Ht.
  rewrite commit_take2 by lia. done.
Qed.

(** C1. The bound of 30 entries is not kept. The chat session was started
    on the stored array itself and pushes its own copy of each answered
    exchange onto it, so an answered message adds four entries where the
    eviction removes two: after seven answered messages the transcript of
    the user has 30 entries, after the eighth it has 32. Its first two
    entries are still the seed. *)
Theorem C1_bound_of_30_exceeded :
  (∃ h : list Content,
     chatHistory (run (answered_messages 7) initial_world) !! "A" = Some h ∧
     length h = 30) ∧
  (∃ h : list Content,
     chatHistory (run (answered_messages 8) initial_world) !! "A" = Some h ∧
     length h = 32 ∧ take 2 h = seed).
Proof. split; eexists; (split; [vm_compute; reflexivity|done]). Qed.

Lemma transcript_of_Some w userId h :
  chatHistory w !! userId = Some h → transcript_of w userId = h.
Proof. unfold transcript_of. by intros ->. Qed.

Lemma transcript_of_None w userId :
  chatHistory w !! userId = None → transcript_of w userId = seed.
Proof. unfold transcript_of. by intros ->. Qed.

(** C2. When the pushes of an answered call leave more than 30 entries in
    the array, the call removes exactly the entries at indices 2 and 3: what
    remains is the first two entries followed by everything from index 4 on.
    For 31 entries after the pushes the result has 29, entries 0 and 1 are
    unchanged, and entries 2 and 3 are the former entries 4 and 5. *)
Theorem C2_eviction_removes_indices_2_and_3
    model userId textoUsuario w (h : list Content) response :
  chatHistory w !! userId = Some h →
  sendMessage model h textoUsuario = inr response →
  30 < length (pushed h textoUsuario response) →
  ∃ w' h',
    gerarRespostaGemini model userId textoUsuario w
      = (Normal (response_text response), w') ∧
    chatHistory w' !! userId = Some h' ∧
    let arr := pushed h textoUsuario response in
    h' = take 2 arr ++ drop 4 arr ∧
    length h' = length arr - 2 ∧
    (∀ i, i < 2 → h' !! i = h !! i) ∧
    (∀ i, 2 ≤ i → h' !! i = arr !! (i + 2)) ∧
    (length arr = 31 →
     length h' = 29 ∧ h' !! 0 = h !! 0 ∧ h' !! 1 = h !! 1 ∧
     h' !! 2 = h !! 4 ∧ h' !! 3 = h !! 5).
Proof.
  intros Hh Hok Hlen.
  pose proof (transcript_of_Some _ _ _ Hh) as Ht.
  eexists _, _. split.
  { apply gerarRespostaGemini_success. by rewrite Ht. }
  split; [simpl; rewrite Ht; apply lookup_insert_eq|].
  rewrite commit_length_evict by done.
  pose proof (pushed_length h textoUsuario response) as Hp.
  set (arr := pushed h textoUsuario response) in *. cbv zeta.
  assert (∀ i, i < length h → arr !! i = h !! i) as Hold
    by (intros i Hi; unfold arr, pushed; by rewrite lookup_app_l).
  assert (length h + 2 ≤ length arr ≤ length h + 4) as Hbounds
    by (destruct (recorded response); lia).
  split; [done|].
  split; [rewrite splice_length; lia|].
  split; [intros i Hi; rewrite splice_lookup_lt, Hold; (done || lia)|].
  split; [intros i Hi; apply splice_lookup_ge; lia|].
  intros H31.
  split; [rewrite splice_length; lia|].
  rewrite !splice_lookup_lt, !splice_lookup_ge by lia. simpl.
  rewrite !Hold by lia. done.
Qed.

Lemma C2_witness :
  ∃ w' h',
    gerarRespostaGemini echo_model "A" "hello" (world_with "A" transcript27)
      = (Normal "re: hello", w') ∧
    chatHistory w' !! "A" = Some h' ∧
    length h' = 29 ∧ h' !! 2 = transcript27 !! 4 ∧ h' !! 3 = transcript27 !! 5.
Proof.
  destruct (C2_eviction_removes_indices_2_and_3 echo_model "A" "hello"
              (world_with "A" transcript27) transcript27 (answer "re: hello"))
    as (w' & h' & Hrun & Hh & _ & _ & _ & _ & Hlast).
  - vm_compute; reflexivity.
  - reflexivity.
  - vm_compute; lia.
  - exists w', h'. destruct Hlast as (H29 & _ & _ & H2 & H3); [reflexivity|].
    by repeat split.
Defined.

(** C3. When the model call fails, [gerarRespostaGemini] returns the fixed
    fallback text (it does not throw), the user's transcript is the one the
    call started from, a user who already had a transcript finds the whole
    store unchanged, and no other user's transcript is touched. *)
Theorem C3_failure_leaves_transcript_unchanged
    model userId textoUsuario w error :
  sendMessage model (transcript_of w userId) textoUsuario = inl error →
  ∃ w',
    gerarRespostaGemini model userId textoUsuario w = (Normal fallback, w') ∧
    chatHistory w' !! userId = Some (transcript_of w userId) ∧
    (∀ h, chatHistory w !! userId = Some h →
          chatHistory w' = chatHistory w ∧ chatHistory w' !! userId = Some h) ∧
    (∀ other, other ≠ userId → chatHistory w' !! other = chatHistory w !! other).
Proof.
  intros Hko. eexists. split; [by apply gerarRespostaGemini_failure|]. simpl.
  split; [apply lookup_insert_eq|].
  split.
  - intros h Hh. rewrite (transcript_of_Some _ _ _ Hh).
    by rewrite insert_id.
  - intros other Hne. by rewrite lookup_insert_ne.
Qed.

Lemma C3_witness :
  ∃ w',
    gerarRespostaGemini failing_model "A" "hello" (world_with "A" transcript29)
      = (Normal fallback, w') ∧
    chatHistory w' !! "A" = Some transcript29.
Proof.
  destruct (C3_failure_leaves_transcript_unchanged failing_model "A" "hello"
              (world_with "A" transcript29) {| message := "quota exceeded" |})
    as (w' & Hrun & _ & Hsame & _); [reflexivity|].
  exists w'. split; [exact Hrun|].
  apply (Hsame transcript29). vm_compute; reflexivity.
Defined.

(** C4, as the specification states it, at the user ["A"] of a fresh
    process: the first entry of the created transcript does not carry a role
    named [system-setup]. *)
Lemma C4_counterexample :
  ¬ ∃ t w',
      getOrCreate "A" initial_world = (Normal (Some t), w') ∧
      length t = 2 ∧
      role <$> t !! 0 = Some "system-setup" ∧
      role <$> t !! 1 = Some "model".
Proof.
  intros (t & w' & Hrun & _ & Hrole & _).
  rewrite getOrCreate_spec in Hrun. injection Hrun as <- _.
  discriminate Hrole.
Qed.

(** C4, amended. For a user with no transcript yet, the lazy creation stores
    and returns a transcript of exactly two entries: entry 0 has role [user]
    and carries the system instructions as its text, entry 1 has role
    [model]. *)
Theorem C4_new_user_gets_seed userId w :
  chatHistory w !! userId = None →
  ∃ t w',
    getOrCreate userId w = (Normal (Some t), w') ∧
    chatHistory w' !! userId = Some t ∧
    length t = 2 ∧
    t !! 0 = Some {| role := "user";
                     parts := [ {| text := "Instruções do Sistema: " +:+ PROMPT_MEDICINA |} ] |} ∧
    role <$> t !! 1 = Some "model".
Proof.
  intros Hnew. eexists _, _. split; [apply getOrCreate_spec|].
  rewrite (transcript_of_None _ _ Hnew). simpl.
  split; [apply lookup_insert_eq|]. done.
Qed.

Lemma C4_witness :
  ∃ t w',
    getOrCreate "A" initial_world = (Normal (Some t), w') ∧
    chatHistory w' !! "A" = Some t ∧
    length t = 2 ∧
    role <$> t !! 0 = Some "user" ∧
    role <$> t !! 1 = Some "model".
Proof.
  destruct (C4_new_user_gets_seed "A" initial_world)
    as (t & w' & Hrun & Hstored & Hlen & H0 & H1); [reflexivity|].
  exists t, w'. by rewrite H0.
Defined.

(** C5. The first scenario of the specification: a new user sends [hello]
    and the model answers [hi]. The call returns [hi], but the transcript
    does not grow by 2: the exchange is stored twice, once by the chat
    session, which was started on the stored array itself, and once by lines
    76-77, so the transcript has 6 entries. *)
Theorem C5_exchange_is_stored_twice :
  gerarRespostaGemini hi_model "A" "hello" initial_world =
    (Normal "hi",
     {| chatHistory :=
          {[ "A" := seed ++ turn "hello" "hi" ++ turn "hello" "hi" ]};
        latestQrCode := None;
        effects := [ SendMessage seed "hello" ] |}) ∧
  length (seed ++ turn "hello" "hi" ++ turn "hello" "hi") = 6.
Proof.
  split; [|done].
  by rewrite (gerarRespostaGemini_success hi_model "A" "hello" initial_world
                (answer "hi")).
Qed.

(** C10. A failed model call for a user who has no transcript yet still
    leaves a transcript for that user in the store, and it is the untouched
    seed: the creation happens before the model is called. *)
Theorem C10_failure_still_creates_seed
    model userId textoUsuario w error :
  chatHistory w !! userId = None →
  sendMessage model seed textoUsuario = inl error →
  ∃ w',
    gerarRespostaGemini model userId textoUsuario w = (Normal fallback, w') ∧
    chatHistory w' = <[userId := seed]> (chatHistory w) ∧
    chatHistory w' !! userId = Some seed ∧
    In (SendMessage seed textoUsuario) (effects w').
Proof.
  intros Hnew Hko. pose proof (transcript_of_None _ _ Hnew) as Ht.
  eexists. split.
  { apply gerarRespostaGemini_failure. by rewrite Ht. }
  simpl. rewrite Ht. split; [done|].
  split; [apply lookup_insert_eq|].
  apply in_app_iff. left. apply in_app_iff. right. by left.
Qed.

Lemma C10_witness :
  ∃ w',
    gerarRespostaGemini failing_model "A" "hello" initial_world
      = (Normal fallback, w') ∧
    chatHistory w' !! "A" = Some seed.
Proof.
  destruct (C10_failure_still_creates_seed failing_model "A" "hello" initial_world
              {| message := "quota exceeded" |})
    as (w' & Hrun & _ & Hseed & _); [reflexivity|reflexivity|].
  by exists w'.
Defined.

(** C6. A message sent by the account itself, or a status update, makes the
    handler return at once: the world is left exactly as it was, so no
    transcript is created or changed, the model is not called and no reply
    is sent. *)
Theorem C6_self_and_status_messages_ignored model msg w :
  fromMe msg = true ∨ isStatus msg = true →
  on_message_create model msg w = (Normal tt, w) ∧
  chatHistory (handle_event w (MessageCreate model msg)) = chatHistory w ∧
  effects (handle_event w (MessageCreate model msg)) = effects w.
Proof.
  intros Hskip.
  assert (on_message_create model msg w = (Normal tt, w)) as Hrun.
  { unfold on_message_create.
    destruct Hskip as [-> | ->]; [done|]. by rewrite orb_true_r. }
  unfold handle_event. simpl. by rewrite Hrun.
Qed.

Lemma C6_witness :
  let status :=
    {| fromMe := false; isStatus := true; from := "status@broadcast";
       body := "hello"; getChat := inr ok_chat; reply := λ _, inr tt |} in
  on_message_create echo_model status initial_world = (Normal tt, initial_world) ∧
  on_message_create echo_model (message_from "A" "hello") initial_world
    ≠ (Normal tt, initial_world).
Proof.
  intros status. split.
  - apply (C6_self_and_status_messages_ignored echo_model status initial_world).
    right. reflexivity.
  - vm_compute. discriminate.
Defined.

(** *** Alternation of roles *)

Lemma even_add_2 n : Nat.even (n + 2) = Nat.even n.
Proof. by rewrite Nat.add_comm. Qed.

Lemma alternates_splice h : 2 ≤ length h → alternates h → alternates (splice 2 2 h).
Proof.
  intros Hl Halt i c Hi Hc.
  rewrite splice_lookup_ge in Hc by done.
  rewrite <- (even_add_2 i). apply Halt; [lia|done].
Qed.

Lemma alternates_push_pair h (u m : Content) :
  role u = "user" → role m = "model" →
  Nat.even (length h) = true → alternates h → alternates (h ++ [u; m]).
Proof.
  intros Hu Hm Hev Halt i c Hi Hc.
  destruct (decide (i < length h)) as [Hlt|Hge].
  - rewrite lookup_app_l in Hc by done. by apply Halt.
  - rewrite lookup_app_r in Hc by lia.
    assert (i = length h ∨ i = length h + 1 ∨ length h + 2 ≤ i) as [->|[->|Hout]]
      by lia.
    + rewrite Nat.sub_diag in Hc. injection Hc as <-. by rewrite Hev.
    + replace (length h + 1 - length h) with 1 in Hc by lia.
      injection Hc as <-.
      by rewrite Nat.add_1_r, Nat.even_succ, <- Nat.negb_even, Hev.
    + destruct (i - length h) as [|[|k]] eqn:Hk; [lia|lia|done].
Qed.

Lemma alternates_pushed h t response :
  Nat.even (length h) = true → alternates h → alternates (pushed h t response).
Proof.
  intros Hev Halt. unfold pushed, sdk_entries.
  destruct (recorded response).
  - rewrite app_assoc. apply alternates_push_pair; try done.
    + rewrite length_app. simpl. by rewrite even_add_2.
    + by apply alternates_push_pair.
  - by apply alternates_push_pair.
Qed.

Lemma pushed_length_even h t response :
  Nat.even (length (pushed h t response)) = Nat.even (length h).
Proof.
  rewrite pushed_length. destruct (recorded response); [|apply even_add_2].
  replace (length h + 4) with (length h + 2 + 2) by lia.
  by rewrite !even_add_2.
Qed.

Lemma paired_commit h t response : paired h → paired (commit h t response).
Proof.
  intros [Hl Hev]. unfold paired.
  pose proof (pushed_length h t response) as Hp.
  pose proof (pushed_length_even h t response) as Hpe.
  assert (length h + 2 ≤ length (pushed h t response)) as Hge
    by (destruct (recorded response); lia).
  destruct (decide (length (pushed h t response) ≤ 30)) as [Hle|Hgt].
  - rewrite commit_length_grow by done. split; [lia|congruence].
  - rewrite commit_length_evict by lia. rewrite splice_length by lia.
    split; [lia|].
    rewrite <- (even_add_2 (length (pushed h t response) - 2)).
    replace (length (pushed h t response) - 2 + 2)
      with (length (pushed h t response)) by lia.
    congruence.
Qed.

Lemma alternates_commit h t response :
  paired h → alternates h → alternates (commit h t response).
Proof.
  intros [Hl Hev] Halt. unfold commit. cbv zeta.
  destruct (30 <? _); [apply alternates_splice|];
    try (by apply alternates_pushed).
  rewrite pushed_length. lia.
Qed.

(** C7. In every transcript the program can hold, the entries from index 2
    on alternate: [user] at even indices, [model] at odd ones, and they come
    in whole pairs (the length is even); removing the entries at indices 2
    and 3 from such a transcript leaves a transcript with the same two
    properties. *)
Theorem C7_roles_alternate evs userId (h : list Content) :
  chatHistory (run evs initial_world) !! userId = Some h →
  (alternates h ∧ paired h) ∧
  (alternates (splice 2 2 h) ∧ Nat.even (length (splice 2 2 h)) = true).
Proof.
  intros Hh.
  assert (alternates h ∧ paired h) as [Halt [Hl Hev]].
  { revert Hh. apply (invariant_reachable (λ h, alternates h ∧ paired h)).
    - split; [|done]. intros i c Hi Hc.
      by destruct i as [|[|[|i]]]; try lia.
    - intros h0 t r [Halt Hp]. split;
        [by apply alternates_commit | by apply paired_commit]. }
  split; [done|]. split; [by apply alternates_splice|].
  destruct (decide (4 ≤ length h)) as [H4|H4].
  - rewrite splice_length by done.
    rewrite <- (even_add_2 (length h - 2)).
    by replace (length h - 2 + 2) with (length h) by lia.
  - destruct h as [|a [|b [|c [|d h]]]]; simpl in *; (done || lia).
Qed.

Lemma C7_witness :
  ∃ h : list Content,
    chatHistory (run (answered_messages 17) initial_world) !! "A" = Some h ∧
    length h = 50 ∧ alternates h ∧ alternates (splice 2 2 h).
Proof.
  eexists. split; [vm_compute; reflexivity|].
  split; [reflexivity|].
  destruct (C7_roles_alternate (answered_messages 17) "A"
              _ ltac:(vm_compute; reflexivity)) as [[Halt _] [Hspl _]].
  by split.
Defined.

(** *** Lengths *)


(** What one event does to a transcript that is already stored. *)
Lemma handle_event_transcript w ev userId (h : list Content) :
  chatHistory w !! userId = Some h →
  ∃ h', chatHistory (handle_event w ev) !! userId = Some h' ∧
        (h' = h ∨ ∃ t response, h' = commit h t response).
Proof.
  intros Hh. unfold handle_event.
  destruct ev as [[e|url]| |reason|model msg]; try (exists h; by split; [|left]).
  simpl handler.
  destruct (on_message_create_store model msg w) as [->|(w0 & Hw0 & ->)];
    [exists h; by split; [|left]|].
  rewrite <- Hw0 in Hh.
  destruct (gerarRespostaGemini_total model (from msg) (body msg) w0)
    as (resposta & w' & Hrun & _ & [(error & _ & _ & Hm)|(response & _ & _ & Hm)]);
    rewrite Hrun; simpl; rewrite Hm;
    (destruct (decide (from msg = userId)) as [->|Hne];
     [rewrite lookup_insert_eq, (transcript_of_Some _ _ _ Hh)
     |rewrite lookup_insert_ne by done; exists h; by split; [|left]]).
  - exists h. by split; [|left].
  - eexists. split; [done|]. right. eauto.
Qed.




(** ** The status page *)

Lemma string_app_cons x (a b : string) : String x a +:+ b = String x (a +:+ b).
Proof. reflexivity. Qed.

Lemma string_app_assoc (a b c : string) : (a +:+ b) +:+ c = a +:+ b +:+ c.
Proof.
  induction a as [|x a IH]; [done|].
  by rewrite !string_app_cons, IH.
Qed.

Lemma starts_with_app p s : starts_with p (p +:+ s) = true.
Proof.
  induction p as [|a p IH]; [done|].
  rewrite string_app_cons. simpl. by rewrite Ascii.eqb_refl, IH.
Qed.

Lemma includes_unfold p s :
  includes p s =
    starts_with p s ||
    match s with EmptyString => false | String _ s' => includes p s' end.
Proof. by destruct s. Qed.

Lemma includes_app pre p post : includes p (pre +:+ p +:+ post) = true.
Proof.
  induction pre as [|a pre IH].
  - change (EmptyString +:+ p +:+ post) with (p +:+ post).
    by rewrite includes_unfold, starts_with_app.
  - rewrite string_app_cons. simpl. by rewrite IH, orb_true_r.
Qed.

Lemma starts_with_inv p s : starts_with p s = true → ∃ post, s = p +:+ post.
Proof.
  revert s. induction p as [|a p IH]; intros s Hs; simpl in *; [by exists s|].
  destruct s as [|b s]; [done|].
  apply andb_true_iff in Hs as [Hab Hs].
  apply Ascii.eqb_eq in Hab as ->.
  destruct (IH _ Hs) as [post ->]. by exists post.
Qed.

(** [includes] decides whether [p] is a substring of [s]. *)
Lemma includes_spec p s :
  includes p s = true ↔ ∃ pre post, s = pre +:+ p +:+ post.
Proof.
  split.
  - induction s as [|b s IH]; simpl; intros Hs.
    + rewrite orb_false_r in Hs. destruct (starts_with_inv _ _ Hs) as [post ->].
      by exists EmptyString, post.
    + apply orb_true_iff in Hs as [Hs|Hs].
      * destruct (starts_with_inv _ _ Hs) as [post ->].
        by exists EmptyString, post.
      * destruct (IH Hs) as (pre & post & ->). by exists (String b pre), post.
  - intros (pre & post & ->). apply includes_app.
Qed.

Lemma page_qr_includes_metaRefresh url : includes metaRefresh (page_qr url) = true.
Proof. unfold page_qr. apply includes_app. Qed.

Lemma page_qr_includes_img url : includes (img_of url) (page_qr url) = true.
Proof.
  apply includes_spec.
  exists ("
            <html><head>" +:+ metaRefresh +:+ style +:+ "</head>
            <body>
                <h1 style=" +:+ dq +:+ "color: #2c3e50;" +:+ dq +:+ ">Conecte o Bot Médico</h1>
                <p>Escaneie o QR Code abaixo:</p>
                "),
         (" width=" +:+ dq +:+ "300" +:+ dq +:+ " style=" +:+ dq +:+
          "border-radius: 10px; box-shadow: 0 4px 8px rgba(0,0,0,0.1);" +:+ dq +:+ "/>
            </body></html>
        ").
  unfold img_of, page_qr.
  rewrite !string_app_assoc.
  vm_compute. reflexivity.
Qed.

Lemma status_page_pending url :
  url ≠ "CONNECTED" → url ≠ EmptyString → status_page (Some url) = page_qr url.
Proof.
  intros Hc He. unfold status_page.
  apply String.eqb_neq in Hc as ->. by apply String.eqb_neq in He as ->.
Qed.

(** C8. The route [/] sends one of three pages, chosen by [latestQrCode]:
    the connected page for ["CONNECTED"], the page showing the code as an
    image for any other non-empty string, the waiting page when there is no
    code. The two pages of the not-connected states carry the 3-second
    [meta] refresh, the connected page does not; the three pages differ from
    one another. *)
Theorem C8_status_page_tri_state (url : string) :
  url ≠ "CONNECTED" → url ≠ EmptyString →
  (status_page (Some "CONNECTED") = page_connected ∧
   includes metaRefresh page_connected = false) ∧
  (status_page (Some url) = page_qr url ∧
   includes metaRefresh (page_qr url) = true ∧
   includes (img_of url) (page_qr url) = true) ∧
  (status_page None = page_waiting ∧
   status_page (Some EmptyString) = page_waiting ∧
   includes metaRefresh page_waiting = true) ∧
  (page_connected ≠ page_waiting ∧ page_qr url ≠ page_connected ∧
   page_qr url ≠ page_waiting) ∧
  (∀ w reason,
     app_get_root initial_world = page_waiting ∧
     app_get_root (handle_event w Ready) = page_connected ∧
     app_get_root (handle_event w (Qr (inr url))) = page_qr url ∧
     app_get_root (handle_event w (Disconnected reason)) = page_waiting).
Proof.
  intros Hc He.
  assert (includes metaRefresh page_connected = false) as Hno
    by (vm_compute; reflexivity).
  assert (includes metaRefresh page_waiting = true) as Hyes
    by (vm_compute; reflexivity).
  assert (includes "<img" page_waiting = false) as Hnoimg
    by (vm_compute; reflexivity).
  assert (includes "<img" (page_qr url) = true) as Himg.
  { apply includes_spec.
    destruct (proj1 (includes_spec _ _) (page_qr_includes_img url))
      as (pre & post & ->).
    exists pre, ((" src=" +:+ dq +:+ url +:+ dq) +:+ post).
    rewrite <- (string_app_assoc "<img"). reflexivity. }
  split; [done|].
  split; [split; [by apply status_page_pending|split];
          [apply page_qr_includes_metaRefresh|apply page_qr_includes_img]|].
  split; [done|].
  split.
  - split; [|split]; intros Heq.
    + rewrite Heq in Hno. congruence.
    + rewrite <- Heq, page_qr_includes_metaRefresh in Hno. congruence.
    + rewrite <- Heq in Hnoimg. congruence.
  - intros w reason. unfold app_get_root, handle_event. simpl.
    split; [done|]. split; [done|]. split; [|done].
    by apply status_page_pending.
Qed.

Lemma C8_witness :
  status_page (Some "data:image/png;base64,iVBORw0KGgo=")
    = page_qr "data:image/png;base64,iVBORw0KGgo=" ∧
  includes metaRefresh (page_qr "data:image/png;base64,iVBORw0KGgo=") = true ∧
  includes metaRefresh page_connected = false.
Proof.
  destruct (C8_status_page_tri_state "data:image/png;base64,iVBORw0KGgo=")
    as ([_ Hno] & (Hpage & Hyes & _) & _); [discriminate|discriminate|].
  by repeat split.
Defined.

(** * Further properties *)

(** ** The [message_create] handler *)

(** The handler completes normally whatever its collaborators do, and never
    assigns [latestQrCode]. *)
Lemma on_message_create_completion model msg w :
  ∃ w', on_message_create model msg w = (Normal tt, w') ∧
        latestQrCode w' = latestQrCode w.
Proof.
  unfold on_message_create.
  destruct (fromMe msg || isStatus msg); [by exists w|].
  unfold bind at 1. simpl. unfold try_catch, bind, perform, await.
  destruct (getChat msg) as [e|chat]; simpl; [by eexists|].
  destruct (sendStateTyping chat) as [e|[]]; simpl; [by eexists|].
  match goal with |- context [gerarRespostaGemini ?m ?u ?t ?w1] =>
    destruct (gerarRespostaGemini_total m u t w1)
      as (resposta & w' & -> & Hq & _) end.
  simpl in Hq.
  destruct (reply msg resposta) as [e|[]]; simpl; [by eexists|].
  destruct (clearState chat) as [e|[]]; simpl; by eexists.
Qed.

(** X1. The handler never lets an error escape: whatever [getChat],
    [sendStateTyping], the model, [reply] and [clearState] do, it completes
    normally. *)
Theorem X1_handler_never_throws model msg w :
  ∃ w', on_message_create model msg w = (Normal tt, w').
Proof.
  destruct (on_message_create_completion model msg w) as (w' & Hrun & _).
  by exists w'.
Qed.

(** The handler up to the call of the model, for a message it accepts and a
    chat whose typing indicator could be set. *)
Lemma on_message_create_accepted model msg w chat :
  fromMe msg = false → isStatus msg = false →
  getChat msg = inr chat → sendStateTyping chat = inr tt →
  on_message_create model msg w =
    let w1 := emit (SendStateTyping (from msg))
                (emit (GetChat (from msg)) (emit (log_received msg) w)) in
    match gerarRespostaGemini model (from msg) (body msg) w1 with
    | (Normal resposta, w2) =>
        let w3 := emit (Reply (from msg) resposta) w2 in
        match reply msg resposta with
        | inl e => (Normal tt, emit (log_reply_error e) w3)
        | inr _ =>
            let w4 := emit (ClearState (from msg)) w3 in
            match clearState chat with
            | inl e => (Normal tt, emit (log_reply_error e) w4)
            | inr _ => (Normal tt, w4)
            end
        end
    | (Throw e, w2) => (Normal tt, emit (log_reply_error e) w2)
    end.
Proof.
  intros Hme Hstatus Hchat Htyping. unfold on_message_create.
  rewrite Hme, Hstatus. simpl. unfold bind at 1. simpl.
  unfold try_catch, bind, perform, await. rewrite Hchat. simpl.
  rewrite Htyping. simpl.
  destruct (gerarRespostaGemini _ _ _ _) as [[resposta|e] w2]; [|done].
  simpl. destruct (reply msg resposta) as [e|[]]; simpl; [done|].
  by destruct (clearState chat) as [e|[]].
Qed.

(** X2. A message from another account, with every client call succeeding
    and the model answering: the text of the answer is sent as the reply to
    the sender, the exchange is stored (by the chat session when it accepts
    the response, and by lines 76-77), and the calls happen in the order
    log, [getChat], typing, model, [reply], [clearState]. *)
Theorem X2_handler_replies_with_the_answer model msg w chat response :
  fromMe msg = false → isStatus msg = false →
  getChat msg = inr chat → sendStateTyping chat = inr tt →
  sendMessage model (transcript_of w (from msg)) (body msg) = inr response →
  reply msg (response_text response) = inr tt → clearState chat = inr tt →
  on_message_create model msg w =
    (Normal tt,
     {| chatHistory :=
          <[from msg := commit (transcript_of w (from msg)) (body msg) response]>
            (chatHistory w);
        latestQrCode := latestQrCode w;
        effects :=
          effects w ++
          [ log_received msg; GetChat (from msg); SendStateTyping (from msg);
            SendMessage (transcript_of w (from msg)) (body msg);
            Reply (from msg) (response_text response); ClearState (from msg) ] |}).
Proof.
  intros Hme Hstatus Hchat Htyping Hok Hreply Hclear.
  rewrite (on_message_create_accepted model msg w chat) by done. cbv zeta.
  rewrite (gerarRespostaGemini_success model _ _ _ response) by exact Hok.
  rewrite Hreply, Hclear. unfold emit, set_chatHistory, transcript_of. simpl.
  by rewrite <- !app_assoc.
Qed.

Lemma X2_witness :
  ∃ w',
    on_message_create echo_model (message_from "A" "hello") initial_world
      = (Normal tt, w') ∧
    chatHistory w' !! "A" =
      Some (seed ++ turn "hello" "re: hello" ++ turn "hello" "re: hello") ∧
    effects w' =
      [ log_received (message_from "A" "hello"); GetChat "A"; SendStateTyping "A";
        SendMessage seed "hello"; Reply "A" "re: hello"; ClearState "A" ].
Proof.
  eexists. split.
  - by apply (X2_handler_replies_with_the_answer echo_model
                (message_from "A" "hello") initial_world ok_chat
                (answer "re: hello")).
  - split; [vm_compute; reflexivity|reflexivity].
Defined.

(** X3. When the model call fails the sender still gets a reply, the
    fallback text; the failure is logged with the message of the error, and
    nothing is added to the sender's transcript. *)
Theorem X3_handler_replies_with_the_fallback model msg w chat error :
  fromMe msg = false → isStatus msg = false →
  getChat msg = inr chat → sendStateTyping chat = inr tt →
  sendMessage model (transcript_of w (from msg)) (body msg) = inl error →
  reply msg fallback = inr tt → clearState chat = inr tt →
  on_message_create model msg w =
    (Normal tt,
     {| chatHistory := <[from msg := transcript_of w (from msg)]> (chatHistory w);
        latestQrCode := latestQrCode w;
        effects :=
          effects w ++
          [ log_received msg; GetChat (from msg); SendStateTyping (from msg);
            SendMessage (transcript_of w (from msg)) (body msg);
            log_gemini_error error;
            Reply (from msg) fallback; ClearState (from msg) ] |}).
Proof.
  intros Hme Hstatus Hchat Htyping Hko Hreply Hclear.
  rewrite (on_message_create_accepted model msg w chat) by done. cbv zeta.
  rewrite (gerarRespostaGemini_failure model _ _ _ error) by exact Hko.
  rewrite Hreply, Hclear. unfold emit, set_chatHistory, transcript_of. simpl.
  by rewrite <- !app_assoc.
Qed.

Lemma X3_witness :
  ∃ w',
    on_message_create failing_model (message_from "A" "hello")
      (world_with "A" transcript29) = (Normal tt, w') ∧
    chatHistory w' !! "A" = Some transcript29 ∧
    In (Reply "A" fallback) (effects w').
Proof.
  eexists. split.
  - by apply (X3_handler_replies_with_the_fallback failing_model
                (message_from "A" "hello") (world_with "A" transcript29) ok_chat
                {| message := "quota exceeded" |}).
  - split; [vm_compute; reflexivity|]. simpl. tauto.
Defined.

(** X4. When [getChat] or [sendStateTyping] fails, the model is not called
    and no reply is sent: the store is unchanged and the only effects are
    the log line, the client calls made so far and the logged error. *)
Theorem X4_client_failure_before_the_model model msg w error :
  fromMe msg = false → isStatus msg = false →
  (getChat msg = inl error ∨
   ∃ chat, getChat msg = inr chat ∧ sendStateTyping chat = inl error) →
  on_message_create model msg w =
    (Normal tt,
     {| chatHistory := chatHistory w;
        latestQrCode := latestQrCode w;
        effects :=
          effects w ++
          [ log_received msg; GetChat (from msg) ] ++
          match getChat msg with
          | inl _ => []
          | inr _ => [ SendStateTyping (from msg) ]
          end ++
          [ log_reply_error error ] |}).
Proof.
  intros Hme Hstatus Hfail. unfold on_message_create.
  rewrite Hme, Hstatus. simpl. unfold bind at 1. simpl.
  unfold try_catch, bind, perform, await.
  destruct Hfail as [Hchat|(chat & Hchat & Htyping)]; rewrite Hchat; simpl.
  - unfold emit. simpl. by rewrite <- !app_assoc.
  - rewrite Htyping. simpl. unfold emit. simpl. by rewrite <- !app_assoc.
Qed.

Lemma X4_witness :
  let msg :=
    {| fromMe := false; isStatus := false; from := "A"; body := "hello";
       getChat := inl {| message := "detached frame" |};
       reply := λ _, inr tt |} in
  on_message_create echo_model msg initial_world =
    (Normal tt,
     {| chatHistory := ∅; latestQrCode := None;
        effects := [ log_received msg; GetChat "A";
                     log_reply_error {| message := "detached frame" |} ] |}).
Proof.
  intros msg.
  apply (X4_client_failure_before_the_model echo_model msg initial_world
           {| message := "detached frame" |}); [reflexivity|reflexivity|].
  left. reflexivity.
Defined.

(** X5. When the model answered but [reply] fails, the exchange stays in the
    transcript although the sender never received the answer, the error is
    logged, and [clearState] is not called. *)
Theorem X5_reply_failure_keeps_the_turn model msg w chat response error :
  fromMe msg = false → isStatus msg = false →
  getChat msg = inr chat → sendStateTyping chat = inr tt →
  sendMessage model (transcript_of w (from msg)) (body msg) = inr response →
  reply msg (response_text response) = inl error →
  on_message_create model msg w =
    (Normal tt,
     {| chatHistory :=
          <[from msg := commit (transcript_of w (from msg)) (body msg) response]>
            (chatHistory w);
        latestQrCode := latestQrCode w;
        effects :=
          effects w ++
          [ log_received msg; GetChat (from msg); SendStateTyping (from msg);
            SendMessage (transcript_of w (from msg)) (body msg);
            Reply (from msg) (response_text response); log_reply_error error ] |}).
Proof.
  intros Hme Hstatus Hchat Htyping Hok Hreply.
  rewrite (on_message_create_accepted model msg w chat) by done. cbv zeta.
  rewrite (gerarRespostaGemini_success model _ _ _ response) by exact Hok.
  rewrite Hreply. unfold emit, set_chatHistory, transcript_of. simpl.
  by rewrite <- !app_assoc.
Qed.

Lemma X5_witness :
  let msg :=
    {| fromMe := false; isStatus := false; from := "A"; body := "hello";
       getChat := inr ok_chat;
       reply := λ _, inl {| message := "session closed" |} |} in
  ∃ w',
    on_message_create echo_model msg initial_world = (Normal tt, w') ∧
    chatHistory w' !! "A" =
      Some (seed ++ turn "hello" "re: hello" ++ turn "hello" "re: hello") ∧
    ¬ In (ClearState "A") (effects w').
Proof.
  intros msg. eexists. split.
  - by apply (X5_reply_failure_keeps_the_turn echo_model msg initial_world ok_chat
                (answer "re: hello") {| message := "session closed" |}).
  - split; [vm_compute; reflexivity|]. simpl.
    intros [H|[H|[H|[H|[H|[H|[]]]]]]]; discriminate H.
Defined.

(** ** One user at a time *)

Lemma gerarRespostaGemini_other model userId textoUsuario w other :
  other ≠ userId →
  chatHistory (snd (gerarRespostaGemini model userId textoUsuario w)) !! other
    = chatHistory w !! other.
Proof.
  intros Hne.
  destruct (gerarRespostaGemini_total model userId textoUsuario w)
    as (resposta & w' & Hrun & _ & [(error & _ & _ & Hm)|(response & _ & _ & Hm)]);
    rewrite Hrun; simpl; rewrite Hm; by rewrite lookup_insert_ne.
Qed.

Lemma handle_event_other w ev userId :
  (∀ model msg, ev = MessageCreate model msg → from msg ≠ userId) →
  chatHistory (handle_event w ev) !! userId = chatHistory w !! userId.
Proof.
  intros Hfrom. unfold handle_event.
  destruct ev as [[e|url]| |reason|model msg]; try done.
  simpl handler.
  destruct (on_message_create_store model msg w) as [->|(w0 & Hw0 & ->)];
    [done|].
  rewrite gerarRespostaGemini_other; [by rewrite Hw0|].
  intros Heq. by apply (Hfrom model msg eq_refl).
Qed.

(** X6. An event changes no transcript but the sender's: a message leaves
    the transcript of every other user as it is, and the events [qr],
    [ready] and [disconnected] leave all of them. *)
Theorem X6_other_users_untouched evs w userId :
  (∀ model msg, MessageCreate model msg ∈ evs → from msg ≠ userId) →
  chatHistory (run evs w) !! userId = chatHistory w !! userId.
Proof.
  revert w. induction evs as [|ev evs IH]; intros w Hfrom; [done|].
  simpl. rewrite IH.
  - apply handle_event_other. intros model msg ->.
    apply (Hfrom model msg). by left.
  - intros model msg Hin. apply (Hfrom model msg). by right.
Qed.

Lemma X6_witness :
  chatHistory
    (run [ MessageCreate echo_model (message_from "B" "hello"); Ready;
           MessageCreate failing_model (message_from "C" "hello") ]
       (world_with "A" transcript29)) !! "A" = Some transcript29.
Proof.
  rewrite (X6_other_users_untouched _ (world_with "A" transcript29) "A").
  - vm_compute; reflexivity.
  - intros model msg Hin.
    apply elem_of_cons in Hin as [Heq|Hin]; [by injection Heq as _ ->|].
    apply elem_of_cons in Hin as [Heq|Hin]; [discriminate Heq|].
    apply elem_of_cons in Hin as [Heq|Hin]; [by injection Heq as _ ->|].
    by apply elem_of_nil in Hin.
Defined.

(** ** Which users the store holds *)

Lemma on_message_create_ignored model msg w :
  fromMe msg || isStatus msg = true →
  on_message_create model msg w = (Normal tt, w).
Proof. intros Hskip. unfold on_message_create. by rewrite Hskip. Qed.

(** X7. No transcript is ever removed from the store: a user who has one
    before a sequence of events has one after it. *)
Theorem X7_transcripts_are_never_removed evs w userId :
  is_Some (chatHistory w !! userId) →
  is_Some (chatHistory (run evs w) !! userId).
Proof.
  revert w. induction evs as [|ev evs IH]; intros w Hw; [done|].
  simpl. apply IH. destruct Hw as [h Hh].
  destruct (handle_event_transcript w ev userId h Hh) as (h' & Hh' & _).
  by exists h'.
Qed.

Lemma X7_witness :
  is_Some (chatHistory
             (run [ Disconnected "LOGOUT"; Qr (inl {| message := "no canvas" |});
                    MessageCreate failing_model (message_from "A" "hello") ]
                (world_with "A" transcript29)) !! "A").
Proof.
  apply X7_transcripts_are_never_removed. by exists transcript29.
Defined.

Lemma handle_event_creates w ev userId :
  chatHistory w !! userId = None →
  is_Some (chatHistory (handle_event w ev) !! userId) →
  ∃ model msg, ev = MessageCreate model msg ∧ from msg = userId ∧
               fromMe msg = false ∧ isStatus msg = false.
Proof.
  intros Hnone Hsome.
  destruct ev as [[e|url]| |reason|model msg];
    try (unfold handle_event in Hsome; simpl in Hsome; rewrite Hnone in Hsome;
         by destruct Hsome).
  destruct (decide (from msg = userId)) as [Hfrom|Hfrom].
  - exists model, msg. split; [done|]. split; [done|].
    destruct (fromMe msg || isStatus msg) eqn:Hskip.
    + unfold handle_event in Hsome. simpl in Hsome.
      rewrite (on_message_create_ignored _ _ _ Hskip) in Hsome. simpl in Hsome.
      rewrite Hnone in Hsome. by destruct Hsome.
    + by apply orb_false_iff in Hskip.
  - rewrite handle_event_other, Hnone in Hsome; [by destruct Hsome|].
    by intros model' msg' [= _ <-].
Qed.

(** X8. A transcript is created only for the sender of a message that the
    handler accepts: if a user has a transcript after a sequence of events
    and had none before, one of the events is a message from that user that
    is neither sent by the account itself nor a status update. *)
Theorem X8_transcripts_only_for_senders evs w userId :
  chatHistory w !! userId = None →
  is_Some (chatHistory (run evs w) !! userId) →
  ∃ model msg, MessageCreate model msg ∈ evs ∧ from msg = userId ∧
               fromMe msg = false ∧ isStatus msg = false.
Proof.
  revert w. induction evs as [|ev evs IH]; intros w Hnone Hsome.
  - simpl in Hsome. rewrite Hnone in Hsome. by destruct Hsome.
  - simpl in Hsome.
    destruct (chatHistory (handle_event w ev) !! userId) as [h|] eqn:Hev.
    + destruct (handle_event_creates w ev userId Hnone)
        as (model & msg & -> & Hrest); [by rewrite Hev|].
      exists model, msg. split; [by left|done].
    + destruct (IH _ Hev Hsome) as (model & msg & Hin & Hrest).
      exists model, msg. split; [by right|done].
Qed.

Lemma X8_witness :
  ∃ model msg,
    MessageCreate model msg ∈
      [ Ready; MessageCreate echo_model (message_from "A" "hello") ] ∧
    from msg = "A" ∧ fromMe msg = false ∧ isStatus msg = false.
Proof.
  apply (X8_transcripts_only_for_senders _ initial_world "A").
  - reflexivity.
  - vm_compute. eauto.
Defined.

(** ** The connection state *)

Lemma handle_event_latestQrCode w ev :
  latestQrCode (handle_event w ev) = next_code (latestQrCode w) ev.
Proof.
  unfold handle_event. destruct ev as [[e|url]| |reason|model msg]; try done.
  simpl. by destruct (on_message_create_completion model msg w) as (w' & -> & Hq).
Qed.

(** X9. The page served depends only on the [qr], [ready] and
    [disconnected] events: [latestQrCode] after a sequence of events is
    obtained by folding those assignments over it, a [qr] event whose image
    could not be rendered and a message of any kind leaving it as it
    is. *)
Theorem X9_status_follows_connection_events evs w :
  latestQrCode (run evs w) = foldl next_code (latestQrCode w) evs ∧
  app_get_root (run evs w) = status_page (foldl next_code (latestQrCode w) evs).
Proof.
  assert (latestQrCode (run evs w) = foldl next_code (latestQrCode w) evs) as Hq.
  { revert w. induction evs as [|ev evs IH]; intros w; [done|].
    simpl. by rewrite IH, handle_event_latestQrCode. }
  split; [done|]. unfold app_get_root. by rewrite Hq.
Qed.

(** ** The shape and the growth of a transcript *)

Lemma exchanges_app l1 l2 : exchanges (l1 ++ l2) = exchanges l1 ++ exchanges l2.
Proof. unfold exchanges. by rewrite fmap_app, concat_app. Qed.

(** The eviction drops the oldest stored exchange. *)
Lemma splice_seed_exchanges x l :
  splice 2 2 (seed ++ exchanges (x :: l)) = seed ++ exchanges l.
Proof. done. Qed.

Lemma pushed_exchanges l t response :
  pushed (seed ++ exchanges l) t response =
    seed ++ exchanges (l ++ (if recorded response
                             then [ (t, response_parts response) ] else []) ++
                            [ (t, [ {| text := response_text response |} ]) ]).
Proof.
  unfold pushed, sdk_entries. rewrite !exchanges_app, <- !app_assoc.
  by destruct (recorded response).
Qed.

(** X10. Every transcript the program can hold is the two seed entries
    followed by whole exchanges, each a [user] entry with a single text part
    followed by a [model] entry: the first two entries are never removed or
    changed, and no entry is ever stored without its partner. *)
Theorem X10_transcript_is_seed_and_exchanges evs userId (h : list Content) :
  chatHistory (run evs initial_world) !! userId = Some h →
  ∃ l : list (string * list Part), h = seed ++ exchanges l.
Proof.
  apply (invariant_reachable
           (λ h, ∃ l : list (string * list Part), h = seed ++ exchanges l)).
  - by exists [].
  - intros h0 t response (l & ->). unfold commit. cbv zeta.
    rewrite pushed_exchanges.
    destruct (30 <? _); [|by eexists].
    destruct (l ++ _ ++ [_]) as [|x l'] eqn:Hl.
    + by destruct l, (recorded response).
    + exists l'. apply splice_seed_exchanges.
Qed.

Lemma X10_witness :
  ∃ (h : list Content) (l : list (string * list Part)),
    chatHistory (run (answered_messages 17) initial_world) !! "A" = Some h ∧
    length h = 50 ∧ h = seed ++ exchanges l.
Proof.
  eexists.
  destruct (X10_transcript_is_seed_and_exchanges (answered_messages 17) "A"
              _ ltac:(vm_compute; reflexivity)) as (l & Hh).
  exists l. split; [vm_compute; reflexivity|]. split; [reflexivity|exact Hh].
Defined.

(** X12. Each call of [gerarRespostaGemini] sends exactly one request to the
    model, with the transcript as it is stored before the call (the new text
    is not yet part of it) and the new text; nothing is retried. A
    successful call logs nothing, a failed one logs the message of the
    error. *)
Theorem X12_one_request_per_call model userId textoUsuario w :
  effects (snd (gerarRespostaGemini model userId textoUsuario w)) =
    effects w ++
    SendMessage (transcript_of w userId) textoUsuario ::
    match sendMessage model (transcript_of w userId) textoUsuario with
    | inr _ => []
    | inl error => [ log_gemini_error error ]
    end.
Proof.
  destruct (sendMessage model (transcript_of w userId) textoUsuario)
    as [error|respostaText] eqn:Hcall.
  - rewrite (gerarRespostaGemini_failure _ _ _ _ _ Hcall). simpl.
    by rewrite <- app_assoc.
  - by rewrite (gerarRespostaGemini_success _ _ _ _ _ Hcall).
Qed.

Lemma gerarRespostaGemini_is_Some model userId textoUsuario w :
  is_Some (chatHistory (snd (gerarRespostaGemini model userId textoUsuario w)) !! userId).
Proof.
  destruct (gerarRespostaGemini_total model userId textoUsuario w)
    as (resposta & w' & Hrun & _ & [(error & _ & _ & Hm)|(response & _ & _ & Hm)]);
    rewrite Hrun; simpl; rewrite Hm, lookup_insert_eq; eauto.
Qed.

Lemma converse_snoc model userId textos texto w :
  converse model userId (textos ++ [texto]) w =
    snd (gerarRespostaGemini model userId texto (converse model userId textos w)).
Proof. unfold converse. by rewrite foldl_app. Qed.

Lemma commit_length_recorded h t response :
  recorded response = true → length (commit h t response) = grow (length h).
Proof.
  intros Hrec. pose proof (pushed_length h t response) as Hp.
  rewrite Hrec in Hp. unfold grow.
  destruct (Nat.ltb_spec 30 (length h + 4)) as [Hgt|Hle].
  - rewrite commit_length_evict by lia. rewrite splice_length; lia.
  - rewrite commit_length_grow by lia. done.
Qed.

Lemma converse_length model userId textos w :
  (∀ h t, ∃ response,
     sendMessage model h t = inr response ∧ recorded response = true) →
  chatHistory w !! userId = None →
  length (transcript_of (converse model userId textos w) userId) =
    if length textos <=? 7 then 2 + 4 * length textos
    else 16 + 2 * length textos.
Proof.
  intros Hanswers Hnew.
  induction textos as [|t textos IH] using rev_ind.
  - change (converse model userId [] w) with w.
    by rewrite (transcript_of_None _ _ Hnew).
  - rewrite converse_snoc, length_app. simpl.
    destruct (Hanswers (transcript_of (converse model userId textos w) userId) t)
      as (response & Hok & Hrec).
    rewrite (gerarRespostaGemini_success _ _ _ _ _ Hok).
    unfold transcript_of at 1. simpl. rewrite lookup_insert_eq. simpl.
    rewrite (commit_length_recorded _ _ _ Hrec), IH. unfold grow.
    destruct (Nat.leb_spec (length textos) 7), (Nat.leb_spec (length textos + 1) 7),
      (Nat.ltb_spec 30 (2 + 4 * length textos + 4)),
      (Nat.ltb_spec 30 (16 + 2 * length textos + 4)); lia.
Qed.

(** X13. The transcript is not bounded by 30 entries. For a user with no
    transcript and a model whose every answer the chat session accepts,
    after [n] messages handled one after the other the transcript has
    [2 + 4 n] entries while [n] is at most 7, and [16 + 2 n] entries from
    then on: each call adds four entries and the eviction removes two. *)
Theorem X13_transcript_grows_without_bound model userId textos w :
  (∀ h t, ∃ response,
     sendMessage model h t = inr response ∧ recorded response = true) →
  chatHistory w !! userId = None →
  textos ≠ [] →
  ∃ h : list Content,
    chatHistory (converse model userId textos w) !! userId = Some h ∧
    length h = if length textos <=? 7 then 2 + 4 * length textos
               else 16 + 2 * length textos.
Proof.
  intros Hanswers Hnew Hne.
  assert (is_Some (chatHistory (converse model userId textos w) !! userId))
    as [h Hh].
  { destruct textos as [|t textos _] using rev_ind; [done|].
    rewrite converse_snoc. apply gerarRespostaGemini_is_Some. }
  exists h. split; [done|].
  rewrite <- (converse_length model userId textos w Hanswers Hnew).
  by rewrite (transcript_of_Some _ _ _ Hh).
Qed.

Lemma X13_witness :
  ∃ h : list Content,
    chatHistory (converse echo_model "A" (pretty <$> seq 0 17) initial_world) !! "A"
      = Some h ∧
    length h = 50.
Proof.
  destruct (X13_transcript_grows_without_bound echo_model "A" (pretty <$> seq 0 17)
              initial_world) as (h & Hh & Hlen).
  - intros h t. by eexists.
  - reflexivity.
  - discriminate.
  - exists h. split; [exact Hh|exact Hlen].
Defined.
